(** * A shallow embedding of the marker icon factory, BingLayer and
    BingMapService of angular-maps.

    Sources embedded:
    - src/src/models/marker.ts   : [Marker.CreateMarker] and the six
      [Marker.Create*] icon generators with the static [MarkerCache];
    - src/models/binglayer.ts    : [BingLayer.AddEntity], [RemoveEntity];
    - src/services/bingmapservice.ts : [CreateMap], [DisposeMap] and
      [CreateMarker] of [BingMapService].

    JavaScript numbers are modelled as rationals [Q]; the browser
    primitives whose results the code only forwards ([toDataURL],
    [measureText], [Math.cos], ...) are fields of a [Host] record, so every
    statement holds for any browser. A thrown [Error] is the [Throw]
    outcome of a call. *)

From stdpp Require Import base gmap strings list.
From Stdlib Require Import Ascii QArith Qround Qabs.

Open Scope Q_scope.

(* ------------------------------------------------------------------ *)
(** ** Interfaces (IPoint, ISize, IMarkerIconInfo) *)

Record IPoint := { x : Q; y : Q }.
Record ISize := { width : Q; height : Q }.

(** The six members of [MarkerTypeId] that [Marker.CreateMarker] switches
    on. *)
Inductive MarkerTypeId :=
| CanvasMarker
| DynmaicCircleMarker
| FontMarker
| RotatedImageMarker
| RoundedImageMarker
| ScaledImageMarker.

(** The value of [iconInfo.markerType]: one of the six cases, or any other
    runtime value, kept with its string conversion (what
    ["..." + iconInfo.markerType] prints). *)
Inductive MarkerTypeValue :=
| Known (t : MarkerTypeId)
| Other (printed : string).

(** The value of a field the code converts to a string without testing
    it first: [undefined] (absent from the object), [null], or a string. *)
Inductive JSOptString :=
| Undefined
| Null
| Str (s : string).

(** [IMarkerIconInfo]; an absent (null or undefined) field is [None], the
    code testing these with [== null] or for truthiness, except [text],
    whose string conversion tells the two apart. The callback is a
    closure; it is identified by a number. *)
Record IMarkerIconInfo := {
  markerType : MarkerTypeValue;
  id : option string;
  size : option ISize;
  points : option (list IPoint);
  color : option string;
  drawingOffset : option IPoint;
  rotation : option Q;
  url : option string;
  callback : option nat;
  scale : option Q;
  fontName : option string;
  fontSize : option Q;
  text : JSOptString;
  strokeWidth : option Q
}.

(** [iconInfo.size = s]: the one field the generators assign. *)
Definition set_size (i : IMarkerIconInfo) (s : ISize) : IMarkerIconInfo :=
  {| markerType := markerType i; id := id i; size := Some s;
     points := points i; color := color i; drawingOffset := drawingOffset i;
     rotation := rotation i; url := url i; callback := callback i;
     scale := scale i; fontName := fontName i; fontSize := fontSize i;
     text := text i; strokeWidth := strokeWidth i |}.

(** JavaScript truthiness of the optional fields the code tests with
    [if (...)] or [||]: null, undefined, 0 and the empty string are falsy. *)
Definition truthy_num (o : option Q) : bool :=
  match o with Some q => negb (Qeq_bool q 0) | None => false end.

Definition truthy_str (o : option string) : bool :=
  match o with Some s => negb (bool_decide (s = EmptyString)) | None => false end.

(** [iconInfo.color || "red"] *)
Definition color_or_red (i : IMarkerIconInfo) : string :=
  match color i with
  | Some c => if truthy_str (Some c) then c else "red"
  | None => "red"
  end.

(** [iconInfo.strokeWidth || 0] *)
Definition stroke_or_zero (i : IMarkerIconInfo) : Q :=
  match strokeWidth i with
  | Some w => if truthy_num (Some w) then w else 0
  | None => 0
  end.

(** The string conversion [measureText] and [fillText] apply to
    [iconInfo.text]. *)
Definition js_string (o : JSOptString) : string :=
  match o with Undefined => "undefined" | Null => "null" | Str s => s end.

(* ------------------------------------------------------------------ *)
(** ** Canvas drawing, as the sequence of calls the code makes *)

Inductive CanvasOp :=
| SetWidth (w : Q)
| SetHeight (h : Q)
| Translate (dx dy : Q)
| Rotate (rads : Q)
| SetFillStyle (s : string)
| SetFont (f : string)
| SetTextBaseline (b : string)
| BeginPath
| MoveTo (px py : Q)
| LineTo (px py : Q)
| ClosePath
| Fill
| Stroke
| Clip
| Arc (cx cy r a0 a1 : Q) (ccw : bool)
| FillText (t : string) (px py : Q)
| DrawImage (src : string) (dx dy : Q)
| DrawImageScaled (src : string) (dx dy dw dh : Q).

(** A canvas element: the calls made on it, oldest first. *)
Definition Canvas := list CanvasOp.

(** The browser primitives the code forwards to. [canvas_dim] is the
    conversion applied when a number is assigned to [canvas.width] or
    [canvas.height], [image_dim] the one applied when a number is assigned
    to [image.width] or [image.height] (both are [unsigned long]
    attributes); [toDataURL] renders the drawn canvas. *)
Record Host := {
  toDataURL : Canvas -> string;
  measureText : string -> string -> Q;
  canvas_dim : Q -> Q;
  image_dim : Q -> Q;
  num_toString : Q -> string;
  Math_PI : Q;
  Math_cos : Q -> Q;
  Math_sin : Q -> Q
}.

(** The current width and height of a canvas (300 x 150 when unset). *)
Fixpoint canvas_width_from (w : Q) (c : Canvas) : Q :=
  match c with
  | [] => w
  | SetWidth w' :: c' => canvas_width_from w' c'
  | _ :: c' => canvas_width_from w c'
  end.

Fixpoint canvas_height_from (h : Q) (c : Canvas) : Q :=
  match c with
  | [] => h
  | SetHeight h' :: c' => canvas_height_from h' c'
  | _ :: c' => canvas_height_from h c'
  end.

Definition canvas_width (c : Canvas) : Q := canvas_width_from 300 c.
Definition canvas_height (c : Canvas) : Q := canvas_height_from 150 c.

(* ------------------------------------------------------------------ *)
(** ** The icon cache and the pending image loads *)

(** [IMarkerIconCacheEntry] *)
Record IMarkerIconCacheEntry := {
  markerIconString : string;
  markerSize : ISize
}.

(** The three generators that load an image first. *)
Inductive ImageKind := RotatedImage | RoundedImage | ScaledImage.

(** An [image.onload] handler registered by a generator and not yet run:
    the [iconInfo] object it closes over, as it was when the handler was
    registered ([load_info]; the handler reads the object as it is when
    the image loads, see [fire_load]), the image element ([src] and the
    width/height assigned to it before loading) and the locals of the
    enclosing call it reads ([radius], [offset]). *)
Record PendingLoad := {
  load_kind : ImageKind;
  load_info : IMarkerIconInfo;
  load_src : string;
  load_attr : option ISize;
  load_radius : Q;
  load_offset : IPoint
}.

(** The state the generators touch: the static [Marker.MarkerCache] and
    the image loads in flight. *)
Record World := {
  MarkerCache : gmap string IMarkerIconCacheEntry;
  loads : list PendingLoad
}.

(** A call of [iconInfo.callback(s, iconInfo)]: the callback, the image
    string and the [iconInfo] passed. *)
Record Invocation := {
  inv_callback : nat;
  inv_image : string;
  inv_info : IMarkerIconInfo
}.

Inductive Outcome :=
| Throw (msg : string)
| Return (s : string).

(** The effect of one generator call: its outcome, the [iconInfo] object
    after the call, the new state and the callbacks run during the call. *)
Record CallResult := {
  outcome : Outcome;
  info_after : IMarkerIconInfo;
  world_after : World;
  invoked : list Invocation
}.

Definition throw_result (msg : string) (i : IMarkerIconInfo) (w : World)
  : CallResult :=
  {| outcome := Throw msg; info_after := i; world_after := w; invoked := [] |}.

(** [iconInfo.id != null && Marker.MarkerCache.has(iconInfo.id)] followed by
    [Marker.MarkerCache.get(iconInfo.id)]. *)
Definition cache_hit (w : World) (i : IMarkerIconInfo)
  : option IMarkerIconCacheEntry :=
  match id i with
  | Some k => MarkerCache w !! k
  | None => None
  end.

(** [if(iconInfo.id != null) Marker.MarkerCache.set(iconInfo.id, e)] *)
Definition cache_store (i : IMarkerIconInfo) (e : IMarkerIconCacheEntry)
    (m : gmap string IMarkerIconCacheEntry) : gmap string IMarkerIconCacheEntry :=
  match id i with
  | Some k => <[k := e]> m
  | None => m
  end.

Definition set_cache (w : World) (m : gmap string IMarkerIconCacheEntry) : World :=
  {| MarkerCache := m; loads := loads w |}.

Definition add_load (w : World) (l : PendingLoad) : World :=
  {| MarkerCache := MarkerCache w; loads := loads w ++ [l] |}.

Section Generators.

Context (H : Host).

(** The rotation prologue shared by the canvas and font generators:
    translate to the centre, rotate by [rotation * Math.PI / 180],
    translate back. *)
Definition rotate_about_centre (c : Canvas) (r : Q) : Canvas :=
  let cw := canvas_width c in
  let ch := canvas_height c in
  c ++ [Translate (cw * 0.5) (ch * 0.5);
        Rotate (r * Math_PI H / 180);
        Translate (- cw * 0.5) (- ch * 0.5)].

Definition maybe_rotate (c : Canvas) (i : IMarkerIconInfo) : Canvas :=
  match rotation i with
  | Some r => if truthy_num (Some r) then rotate_about_centre c r else c
  | None => c
  end.

(** The drawing of [CreateCanvasMarker] for an icon of size [sz] and
    points [pts]. *)
Definition canvas_marker_drawing (i : IMarkerIconInfo) (sz : ISize)
    (pts : list IPoint) : Canvas :=
  let c := [SetWidth (canvas_dim H (width sz)); SetHeight (canvas_dim H (height sz))] in
  let c := maybe_rotate c i in
  let c := c ++ [SetFillStyle (color_or_red i); BeginPath] in
  let c := match drawingOffset i with
           | Some o => c ++ [MoveTo (x o) (y o)]
           | None => c
           end in
  let c := c ++ map (fun p => LineTo (x p) (y p)) pts in
  c ++ [ClosePath; Fill; Stroke].

(** [Marker.CreateCanvasMarker] *)
Definition CreateCanvasMarker (doc : bool) (i : IMarkerIconInfo) (w : World)
  : CallResult :=
  if negb doc then
    throw_result "Document context (window.document) is required for canvas markers." i w
  else match size i, points i with
  | Some sz, Some pts =>
      match cache_hit w i with
      | Some mi =>
          {| outcome := Return (markerIconString mi);
             info_after := set_size i (markerSize mi);
             world_after := w; invoked := [] |}
      | None =>
          let s := toDataURL H (canvas_marker_drawing i sz pts) in
          {| outcome := Return s; info_after := i;
             world_after := set_cache w (cache_store i
                 {| markerIconString := s; markerSize := sz |} (MarkerCache w));
             invoked := [] |}
      end
  | _, _ =>
      throw_result "IMarkerIconInfo.size, and IMarkerIConInfo.points are required for canvas markers." i w
  end.

(** The SVG text of [CreateDynmaicCircleMarker]: the pieces of the
    [svg] array joined with the empty string; [dq] is the double-quote
    character. *)
Definition dq : string := String (Ascii.ascii_of_nat 34) EmptyString.

Definition circle_svg (i : IMarkerIconInfo) (sz : ISize) : string :=
  let sw := stroke_or_zero i in
  let ts := num_toString H in
  String.concat EmptyString [
    "<svg xmlns=" +:+ dq +:+ "http://www.w3.org/2000/svg" +:+ dq +:+ " width=" +:+ dq;
    ts (width sz);
    dq +:+ " height=" +:+ dq;
    ts (width sz);
    dq +:+ "><circle cx=" +:+ dq;
    ts (width sz / 2);
    dq +:+ " cy=" +:+ dq;
    ts (width sz / 2);
    dq +:+ " r=" +:+ dq;
    ts (width sz / 2 - sw);
    dq +:+ " stroke=" +:+ dq;
    color_or_red i;
    dq +:+ " stroke-width=" +:+ dq;
    ts sw;
    dq +:+ " fill=" +:+ dq;
    color_or_red i;
    dq +:+ "/></svg>"].

(** [Marker.CreateDynmaicCircleMarker] *)
Definition CreateDynmaicCircleMarker (doc : bool) (i : IMarkerIconInfo) (w : World)
  : CallResult :=
  if negb doc then
    throw_result "Document context (window.document) is required for dynamic circle markers." i w
  else match size i with
  | Some sz =>
      match cache_hit w i with
      | Some mi =>
          {| outcome := Return (markerIconString mi);
             info_after := set_size i (markerSize mi);
             world_after := w; invoked := [] |}
      | None =>
          let s := circle_svg i sz in
          {| outcome := Return s; info_after := i;
             world_after := set_cache w (cache_store i
                 {| markerIconString := s; markerSize := sz |} (MarkerCache w));
             invoked := [] |}
      end
  | None =>
      throw_result "IMarkerIconInfo.size is required for dynamic circle markers." i w
  end.

(** The drawing of [CreateFontBasedMarker]: the canvas is sized to the
    measured text, which resets the context, so the font is set again. *)
Definition font_string (fs : Q) (fn : string) : string :=
  num_toString H fs +:+ "px " +:+ fn.

Definition font_marker_drawing (i : IMarkerIconInfo) (fs : Q) (fn : string)
  : Canvas :=
  let font := font_string fs fn in
  let c := [SetFont font] in
  let mw := measureText H font (js_string (text i)) in
  let c := c ++ [SetWidth (canvas_dim H mw); SetHeight (canvas_dim H fs)] in
  let c := maybe_rotate c i in
  c ++ [SetFont font; SetTextBaseline "top"; SetFillStyle (color_or_red i);
        FillText (js_string (text i)) 0 0].

(** [Marker.CreateFontBasedMarker] *)
Definition CreateFontBasedMarker (doc : bool) (i : IMarkerIconInfo) (w : World)
  : CallResult :=
  if negb doc then
    throw_result "Document context (window.document) is required for font based markers" i w
  else match fontName i, fontSize i with
  | Some fn, Some fs =>
      match cache_hit w i with
      | Some mi =>
          {| outcome := Return (markerIconString mi);
             info_after := set_size i (markerSize mi);
             world_after := w; invoked := [] |}
      | None =>
          let c := font_marker_drawing i fs fn in
          let sz := {| width := canvas_width c; height := canvas_height c |} in
          let i' := set_size i sz in
          let s := toDataURL H c in
          {| outcome := Return s; info_after := i';
             world_after := set_cache w (cache_store i'
                 {| markerIconString := s; markerSize := sz |} (MarkerCache w));
             invoked := [] |}
      end
  | _, _ =>
      throw_result "IMarkerIconInfo.fontName, IMarkerIconInfo.fontSize and IMarkerIConInfo.text are required for font based markers." i w
  end.

(** The cache-hit branch of the three image generators:
    [iconInfo.size = mi.markerSize; iconInfo.callback(mi.markerIconString,
    iconInfo); return ""]. *)
Definition image_cache_hit (i : IMarkerIconInfo) (cb : nat)
    (mi : IMarkerIconCacheEntry) (w : World) : CallResult :=
  let i' := set_size i (markerSize mi) in
  {| outcome := Return EmptyString; info_after := i'; world_after := w;
     invoked := [{| inv_callback := cb; inv_image := markerIconString mi;
                    inv_info := i' |}] |}.

(** [Marker.CreateRotatedImageMarker]: a cache miss creates the image,
    assigns [image.width]/[image.height] when a size is given, registers
    [image.onload] and returns the empty string. *)
Definition CreateRotatedImageMarker (doc : bool) (i : IMarkerIconInfo) (w : World)
  : CallResult :=
  if negb doc then
    throw_result "Document context (window.document) is required for rotated image markers" i w
  else match rotation i, url i, callback i with
  | Some _, Some u, Some cb =>
      match cache_hit w i with
      | Some mi => image_cache_hit i cb mi w
      | None =>
          let l := {| load_kind := RotatedImage; load_info := i; load_src := u;
                      load_attr := size i; load_radius := 0;
                      load_offset := {| x := 0; y := 0 |} |} in
          {| outcome := Return EmptyString; info_after := i;
             world_after := add_load w l; invoked := [] |}
      end
  | _, _, _ =>
      throw_result "IMarkerIconInfo.rotation, IMarkerIconInfo.url and IMarkerIConInfo.callback are required for rotated image markers." i w
  end.

(** [Marker.CreateRoundedImageMarker]: [radius] and [offset] are computed
    before the image loads. *)
Definition CreateRoundedImageMarker (doc : bool) (i : IMarkerIconInfo) (w : World)
  : CallResult :=
  if negb doc then
    throw_result "Document context (window.document) is required for rounded image markers" i w
  else match size i, url i, callback i with
  | Some sz, Some u, Some cb =>
      match cache_hit w i with
      | Some mi => image_cache_hit i cb mi w
      | None =>
          let off := match drawingOffset i with
                     | Some o => o
                     | None => {| x := 0; y := 0 |}
                     end in
          let l := {| load_kind := RoundedImage; load_info := i; load_src := u;
                      load_attr := None; load_radius := width sz / 2;
                      load_offset := off |} in
          {| outcome := Return EmptyString; info_after := i;
             world_after := add_load w l; invoked := [] |}
      end
  | _, _, _ =>
      throw_result "IMarkerIconInfo.size, IMarkerIconInfo.url and IMarkerIConInfo.callback are required for rounded image markers." i w
  end.

(** [Marker.CreateScaledImageMarker] *)
Definition CreateScaledImageMarker (doc : bool) (i : IMarkerIconInfo) (w : World)
  : CallResult :=
  if negb doc then
    throw_result "Document context (window.document) is required for scaled image markers" i w
  else match scale i, url i, callback i with
  | Some _, Some u, Some cb =>
      match cache_hit w i with
      | Some mi => image_cache_hit i cb mi w
      | None =>
          let l := {| load_kind := ScaledImage; load_info := i; load_src := u;
                      load_attr := None; load_radius := 0;
                      load_offset := {| x := 0; y := 0 |} |} in
          {| outcome := Return EmptyString; info_after := i;
             world_after := add_load w l; invoked := [] |}
      end
  | _, _, _ =>
      throw_result "IMarkerIconInfo.scale, IMarkerIconInfo.url and IMarkerIConInfo.callback are required for scaled image markers." i w
  end.

(** [Marker.CreateMarker]: the switch on [iconInfo.markerType]. *)
Definition unsupported_prefix : string := "Unsupported marker type: ".

Definition CreateMarker (doc : bool) (i : IMarkerIconInfo) (w : World)
  : CallResult :=
  match markerType i with
  | Known CanvasMarker => CreateCanvasMarker doc i w
  | Known DynmaicCircleMarker => CreateDynmaicCircleMarker doc i w
  | Known FontMarker => CreateFontBasedMarker doc i w
  | Known RotatedImageMarker => CreateRotatedImageMarker doc i w
  | Known RoundedImageMarker => CreateRoundedImageMarker doc i w
  | Known ScaledImageMarker => CreateScaledImageMarker doc i w
  | Other v => throw_result (unsupported_prefix +:+ v) i w
  end.

(** ** The [image.onload] handlers *)

(** [image.width] and [image.height] when the handler runs: the values
    assigned before loading, or else the loaded image's own size. *)
Definition image_dims (l : PendingLoad) (nw nh : Q) : Q * Q :=
  match load_attr l with
  | Some sz => (image_dim H (width sz), image_dim H (height sz))
  | None => (nw, nh)
  end.

(** The drawing each handler makes; [i] is the [iconInfo] object when the
    image has loaded, [nw] and [nh] are the dimensions of the loaded
    image. *)
Definition onload_drawing (l : PendingLoad) (i : IMarkerIconInfo) (nw nh : Q) : Canvas :=
  let src := load_src l in
  match load_kind l with
  | RotatedImage =>
      let '(iw, ih) := image_dims l nw nh in
      let r := match rotation i with Some r => r | None => 0 end in
      let rads := r * Math_PI H / 180 in
      let c := [SetWidth (canvas_dim H (Qabs (inject_Z (Qceiling
                   (iw * Math_cos H rads + ih * Math_sin H rads)))));
                SetHeight (canvas_dim H (Qabs (inject_Z (Qceiling
                   (iw * Math_sin H rads + ih * Math_cos H rads)))))] in
      c ++ [Translate (canvas_width c / 2) (canvas_height c / 2);
            Rotate rads;
            DrawImage src (- iw / 2) (- ih / 2)]
  | RoundedImage =>
      let sw := match size i with Some sz => width sz | None => 0 end in
      let radius := load_radius l in
      let off := load_offset l in
      let c := [SetWidth (canvas_dim H sw); SetHeight (canvas_dim H sw)] in
      c ++ [BeginPath; Arc radius radius radius 0 (2 * Math_PI H) false;
            Fill; Clip; DrawImageScaled src (x off) (y off) sw sw]
  | ScaledImage =>
      let sc := match scale i with Some sc => sc | None => 0 end in
      let c := [SetWidth (canvas_dim H (nw * sc)); SetHeight (canvas_dim H (nh * sc))] in
      c ++ [DrawImageScaled src 0 0 (canvas_width c) (canvas_height c)]
  end.

(** The common tail of the three handlers:
    [iconInfo.size = {c.width, c.height}; s = c.toDataURL();
    if (iconInfo.id != null) MarkerCache.set(...); iconInfo.callback(s, iconInfo)].
    The store is unconditional: the handler does not look the id up again. *)
Definition run_onload (l : PendingLoad) (i : IMarkerIconInfo) (nw nh : Q)
    (m : gmap string IMarkerIconCacheEntry)
  : gmap string IMarkerIconCacheEntry * Invocation :=
  let c := onload_drawing l i nw nh in
  let sz := {| width := canvas_width c; height := canvas_height c |} in
  let i' := set_size i sz in
  let s := toDataURL H c in
  let cb := match callback i' with Some cb => cb | None => 0%nat end in
  (cache_store i' {| markerIconString := s; markerSize := sz |} m,
   {| inv_callback := cb; inv_image := s; inv_info := i' |}).

(** The fields of [iconInfo] each handler reads without testing them, all
    of which the guard of its generator found non-null: [rotation],
    [size.width] or [scale], and [callback]. *)
Definition handler_ready (kd : ImageKind) (i : IMarkerIconInfo) : bool :=
  match kd, callback i with
  | RotatedImage, Some _ => match rotation i with Some _ => true | None => false end
  | RoundedImage, Some _ => match size i with Some _ => true | None => false end
  | ScaledImage, Some _ => match scale i with Some _ => true | None => false end
  | _, None => false
  end.

(** The browser runs the [k]-th pending handler, the image having loaded
    with dimensions [nw] x [nh], and [i] being the [iconInfo] object at
    that moment. The handler closes over the object, not over its fields:
    since the call the caller may have changed any field, and a later
    cache-hit call of the library with the same object reassigns [size].
    A handler that finds one of the fields it reads null throws, or
    computes with [NaN]; that run is not modelled ([None]). *)
Definition fire_load (k : nat) (nw nh : Q) (i : IMarkerIconInfo) (w : World)
  : option (World * Invocation) :=
  match loads w !! k with
  | Some l =>
      if handler_ready (load_kind l) i then
        let '(m', inv) := run_onload l i nw nh (MarkerCache w) in
        Some ({| MarkerCache := m'; loads := delete k (loads w) |}, inv)
      else None
  | None => None
  end.

(** One event of the icon factory: a [Marker.CreateMarker] call (which may
    throw) or the completion of a pending image load. *)
Inductive marker_step (doc : bool) : World -> World -> Prop :=
| ms_call (i : IMarkerIconInfo) (w : World) :
    marker_step doc w (world_after (CreateMarker doc i w))
| ms_load (k : nat) (nw nh : Q) (i : IMarkerIconInfo) (w w' : World) (inv : Invocation) :
    fire_load k nw nh i w = Some (w', inv) -> marker_step doc w w'.

End Generators.

(* ------------------------------------------------------------------ *)
(** ** BingLayer (src/models/binglayer.ts) *)

Module BingLayerModel.

(** JavaScript values, as far as [AddEntity] and [RemoveEntity] look at
    them; objects are references. *)
Inductive JSValue :=
| JUndefined
| JNull
| JBool (b : bool)
| JNum (q : Q)
| JStr (s : string)
| JObj (ref : nat).

#[global] Instance Q_eq_dec : EqDecision Q.
Proof. intros [a b] [c d]. unfold Decision. decide equality; apply decide; apply _. Defined.

#[global] Instance JSValue_eq_dec : EqDecision JSValue.
Proof. solve_decision. Defined.

Definition truthy (v : JSValue) : bool :=
  match v with
  | JUndefined | JNull => false
  | JBool b => b
  | JNum q => negb (Qeq_bool q 0)
  | JStr s => negb (bool_decide (s = EmptyString))
  | JObj _ => true
  end.

(** An entity ([Marker | InfoWindow | any]) as the properties it exposes;
    reading a property it lacks gives [undefined]. *)
Definition JSObject := gmap string JSValue.

Definition get_prop (o : JSObject) (p : string) : JSValue :=
  match o !! p with Some v => v | None => JUndefined end.

(** The native [Microsoft.Maps.Layer]: its primitives and its [id]. [add]
    appends a primitive and [remove] takes it out. *)
Record NativeLayer := {
  primitives : list JSValue;
  layer_id : string
}.

Definition native_add (l : NativeLayer) (p : JSValue) : NativeLayer :=
  {| primitives := primitives l ++ [p]; layer_id := layer_id l |}.

Definition native_remove (l : NativeLayer) (p : JSValue) : NativeLayer :=
  {| primitives := filter (fun q => q <> p) (primitives l); layer_id := layer_id l |}.

(** [BingLayer.AddEntity]:
    [if(entity.NativePrimitve) this._layer.add(entity.NativePrimitve)] *)
Definition AddEntity (layer : NativeLayer) (entity : JSObject) : NativeLayer :=
  if truthy (get_prop entity "NativePrimitve")
  then native_add layer (get_prop entity "NativePrimitve")
  else layer.

(** [BingLayer.RemoveEntity]: the guard reads the property
    [NativePRimitive], the removal passes [NativePrimitve].
    [if(entity.NativePRimitive) this._layer.remove(entity.NativePrimitve)] *)
Definition RemoveEntity (layer : NativeLayer) (entity : JSObject) : NativeLayer :=
  if truthy (get_prop entity "NativePRimitive")
  then native_remove layer (get_prop entity "NativePrimitve")
  else layer.

(** A [BingMarker] seen as an entity: its [NativePrimitve] getter returns
    the pushpin it wraps. *)
Definition marker_entity (pushpin : nat) : JSObject :=
  {[ "NativePrimitve" := JObj pushpin ]}.

End BingLayerModel.

(* ------------------------------------------------------------------ *)
(** ** BingMapService map lifecycle (src/services/bingmapservice.ts) *)

Module MapLifecycle.

Inductive MapStatus := Live | Disposed.

(** The service fields [_map] (a promise), [_mapInstance] and
    [_mapResolver] (the resolver of the promise it was created with),
    together with the promises and native maps created so far; promises and
    maps are named by numbers drawn from [fresh]. A promise is pending
    ([None]) or resolved with a map. *)
Record SvcState := {
  _map : option nat;
  _mapInstance : option nat;
  _mapResolver : nat;
  promises : gmap nat (option nat);
  maps : gmap nat MapStatus;
  fresh : nat
}.

(** [this._map = new Promise(resolve => { this._mapResolver = resolve; })] *)
Definition new_map_promise (st : SvcState) : SvcState :=
  {| _map := Some (fresh st); _mapInstance := _mapInstance st;
     _mapResolver := fresh st;
     promises := <[fresh st := None]> (promises st);
     maps := maps st; fresh := S (fresh st) |}.

(** The constructor. *)
Definition init_state : SvcState :=
  new_map_promise {| _map := None; _mapInstance := None; _mapResolver := 0;
                     promises := ∅; maps := ∅; fresh := 0 |}.

(** [BingMapService.DisposeMap] *)
Definition DisposeMap (st : SvcState) : SvcState :=
  match _map st, _mapInstance st with
  | None, None => st
  | _, Some m =>
      new_map_promise
        {| _map := _map st; _mapInstance := None; _mapResolver := _mapResolver st;
           promises := promises st; maps := <[m := Disposed]> (maps st);
           fresh := fresh st |}
  | _, None => st
  end.

(** Calling a resolver: a pending promise becomes resolved, a settled one
    is left as it is. *)
Definition resolve (p m : nat) (ps : gmap nat (option nat)) : gmap nat (option nat) :=
  match ps !! p with
  | Some None => <[p := Some m]> ps
  | _ => ps
  end.

(** The continuation of [BingMapService.CreateMap], run once the loader's
    promise resolves: dispose a live instance, create the native map,
    store it and resolve the map promise. *)
Definition CreateMap_then (st : SvcState) : SvcState :=
  let st1 := match _mapInstance st with
             | Some _ => DisposeMap st
             | None => st
             end in
  let m := fresh st1 in
  {| _map := _map st1; _mapInstance := Some m; _mapResolver := _mapResolver st1;
     promises := resolve (_mapResolver st1) m (promises st1);
     maps := <[m := Live]> (maps st1); fresh := S m |}.

(** The states a service reaches from its constructor through [CreateMap]
    and [DisposeMap]; its other methods only read [_map]. *)
Inductive reachable : SvcState -> Prop :=
| reach_init : reachable init_state
| reach_create st : reachable st -> reachable (CreateMap_then st)
| reach_dispose st : reachable st -> reachable (DisposeMap st).

(** At most one live map: every live map is the stored instance. *)
Definition one_live (st : SvcState) : Prop :=
  forall m, maps st !! m = Some Live -> _mapInstance st = Some m.

End MapLifecycle.

(* ------------------------------------------------------------------ *)
(** ** BingMapService.CreateMarker (src/services/bingmapservice.ts) *)

Module MarkerService.

(** The fields of the translated [Microsoft.Maps.IPushpinOptions] the
    method reads or writes; the other translated options are carried in
    [pp_other] untouched. *)
Record IPushpinOptions := {
  icon : option string;
  anchor : option IPoint;
  textOffset : option IPoint;
  pp_other : list (string * string)
}.

(** [let s: number = 48] and the default [iconInfo] literal. *)
Definition s48 : Q := 48.

Definition default_points : list IPoint :=
  [{| x := 10; y := 40 |}; {| x := 24; y := 30 |};
   {| x := 38; y := 40 |}; {| x := 24; y := 0 |}].

Definition default_icon_info : IMarkerIconInfo := {|
  markerType := Known CanvasMarker;
  id := None;
  size := Some {| width := s48; height := s48 |};
  points := Some default_points;
  color := Some "#f00";
  drawingOffset := Some {| x := 24; y := 0 |};
  rotation := Some 45;
  url := None; callback := None; scale := None; fontName := None;
  fontSize := None; text := Undefined; strokeWidth := None |}.

(** The body of the [this._map.then(...)] continuation, up to the pushpin
    options passed to [new Microsoft.Maps.Pushpin(loc, o)]; [o] is the
    result of [BingConversions.TranslateMarkerOptions(options)]. The map
    promise only resolves once a map was created in an element of the
    page, so [window.document] is present ([doc = true]). A thrown error
    rejects the returned promise ([inl]). *)
Definition CreateMarker_then (H : Host) (o : IPushpinOptions) (w : World)
  : string + (IPushpinOptions * World) :=
  match icon o with
  | Some _ => inr (o, w)
  | None =>
      let r := CreateMarker H true default_icon_info w in
      match outcome r with
      | Throw msg => inl msg
      | Return ic =>
          let sz := match size (info_after r) with
                    | Some sz => sz
                    | None => {| width := 0; height := 0 |}
                    end in
          inr ({| icon := Some ic;
                  anchor := Some {| x := width sz * 0.75; y := height sz * 0.25 |};
                  textOffset := Some {| x := 0; y := height sz * 0.66 |};
                  pp_other := pp_other o |}, world_after r)
      end
  end.

End MarkerService.

(* ------------------------------------------------------------------ *)
(** ** Which fields each generator requires *)

Definition present {A} (o : option A) : bool :=
  match o with Some _ => true | None => false end.

(** The fields the guard of each [Create*] function tests against null,
    read off the source. *)
Definition required_fields (t : MarkerTypeId) (i : IMarkerIconInfo) : bool :=
  match t with
  | CanvasMarker => present (size i) && present (points i)
  | DynmaicCircleMarker => present (size i)
  | FontMarker => present (fontName i) && present (fontSize i)
  | RotatedImageMarker => present (rotation i) && present (url i) && present (callback i)
  | RoundedImageMarker => present (size i) && present (url i) && present (callback i)
  | ScaledImageMarker => present (scale i) && present (url i) && present (callback i)
  end.

(** Whether a generator returns its image ([true]) or hands it to
    [iconInfo.callback] and returns the empty string ([false]). *)
Definition returns_image (t : MarkerTypeId) : bool :=
  match t with
  | CanvasMarker | DynmaicCircleMarker | FontMarker => true
  | RotatedImageMarker | RoundedImageMarker | ScaledImageMarker => false
  end.

(* ------------------------------------------------------------------ *)
(** ** A concrete browser and inputs, for the examples *)

Definition is_draw_image (op : CanvasOp) : bool :=
  match op with DrawImage _ _ _ | DrawImageScaled _ _ _ _ _ => true | _ => false end.

Definition demo_host : Host := {|
  toDataURL := fun c => if existsb is_draw_image c
                        then "data:image/png;base64,IMAGE"
                        else "data:image/png;base64,PATH";
  measureText := fun _ t => inject_Z (Z.of_nat (String.length t)) * 10;
  canvas_dim := fun q => q;
  image_dim := fun q => q;
  num_toString := fun _ => "0";
  Math_PI := 355 # 113;
  Math_cos := fun _ => 1;
  Math_sin := fun _ => 0 |}.

Definition empty_world : World := {| MarkerCache := ∅; loads := [] |}.

Definition no_fields (t : MarkerTypeValue) (k : option string) : IMarkerIconInfo := {|
  markerType := t; id := k; size := None; points := None; color := None;
  drawingOffset := None; rotation := None; url := None; callback := None;
  scale := None; fontName := None; fontSize := None; text := Undefined;
  strokeWidth := None |}.

Definition entry_a : IMarkerIconCacheEntry := {|
  markerIconString := "data:image/png;base64,CACHED";
  markerSize := {| width := 32; height := 32 |} |}.

Definition world_a : World := {| MarkerCache := {[ "a" := entry_a ]}; loads := [] |}.

Definition rotated_a : IMarkerIconInfo := {|
  markerType := Known RotatedImageMarker; id := Some "a";
  size := None; points := None; color := None; drawingOffset := None;
  rotation := Some 30; url := Some "pin.png"; callback := Some 1%nat;
  scale := None; fontName := None; fontSize := None; text := Undefined;
  strokeWidth := None |}.

Definition canvas_a (pts : option (list IPoint)) : IMarkerIconInfo := {|
  markerType := Known CanvasMarker; id := Some "a";
  size := Some {| width := 16; height := 16 |}; points := pts; color := None;
  drawingOffset := None; rotation := None; url := None; callback := None;
  scale := None; fontName := None; fontSize := None; text := Undefined;
  strokeWidth := None |}.

Definition font_no_text : IMarkerIconInfo := {|
  markerType := Known FontMarker; id := None;
  size := None; points := None; color := None; drawingOffset := None;
  rotation := None; url := None; callback := None; scale := None;
  fontName := Some "FontAwesome"; fontSize := Some 24; text := Undefined;
  strokeWidth := None |}.

(* ------------------------------------------------------------------ *)
(** ** Proofs *)

Lemma id_set_size (i : IMarkerIconInfo) (sz : ISize) : id (set_size i sz) = id i.
Proof. reflexivity. Qed.

Ltac split_matches :=
  repeat (rewrite ?id_set_size;
          match goal with
          | |- context [match ?e with _ => _ end] => destruct e eqn:?
          end).

Lemma cache_hit_id (w : World) (i : IMarkerIconInfo) (k : string)
    (mi : IMarkerIconCacheEntry) :
  id i = Some k -> MarkerCache w !! k = Some mi -> cache_hit w i = Some mi.
Proof. intros Hk Hc. unfold cache_hit. by rewrite Hk. Qed.

Lemma cache_hit_none (w : World) (i : IMarkerIconInfo) :
  id i = None -> cache_hit w i = None.
Proof. intros Hk. unfold cache_hit. by rewrite Hk. Qed.

(** The call a supported marker type is dispatched to. *)
Definition generator (t : MarkerTypeId) : Host -> bool -> IMarkerIconInfo -> World -> CallResult :=
  match t with
  | CanvasMarker => CreateCanvasMarker
  | DynmaicCircleMarker => CreateDynmaicCircleMarker
  | FontMarker => CreateFontBasedMarker
  | RotatedImageMarker => fun _ => CreateRotatedImageMarker
  | RoundedImageMarker => fun _ => CreateRoundedImageMarker
  | ScaledImageMarker => fun _ => CreateScaledImageMarker
  end.

Lemma CreateMarker_known (H : Host) (doc : bool) (i : IMarkerIconInfo) (w : World)
    (t : MarkerTypeId) :
  markerType i = Known t -> CreateMarker H doc i w = generator t H doc i w.
Proof. intros Ht. unfold CreateMarker. rewrite Ht. by destruct t. Qed.

(** C1, as the code does it (corrected). *)
Lemma cached_generator (H : Host) (t : MarkerTypeId) (i : IMarkerIconInfo)
    (w : World) (mi : IMarkerIconCacheEntry) :
  cache_hit w i = Some mi -> required_fields t i = true ->
  world_after (generator t H true i w) = w /\
  info_after (generator t H true i w) = set_size i (markerSize mi) /\
  (if returns_image t
   then outcome (generator t H true i w) = Return (markerIconString mi) /\
        invoked (generator t H true i w) = []
   else outcome (generator t H true i w) = Return EmptyString /\
        exists cb, callback i = Some cb /\
          invoked (generator t H true i w) =
            [{| inv_callback := cb; inv_image := markerIconString mi;
                inv_info := set_size i (markerSize mi) |}]).
Proof.
  intros Hc Hreq.
  destruct t; simpl in Hreq; simpl;
    unfold CreateCanvasMarker, CreateDynmaicCircleMarker, CreateFontBasedMarker,
      CreateRotatedImageMarker, CreateRoundedImageMarker, CreateScaledImageMarker,
      image_cache_hit;
    simpl; rewrite Hc;
    repeat match goal with
    | Hb : (_ && _)%bool = true |- _ => apply andb_prop in Hb; destruct Hb
    end;
    split_matches; simpl in *; try discriminate; eauto 10.
Qed.

(** C1 (corrected): once the guards pass and the id is cached, [CreateMarker]
    generates nothing (the state is unchanged: no drawing stored, no image
    load registered). The canvas, circle and font generators return the
    cached image string; the three image generators return the empty string
    and pass the cached string to [iconInfo.callback] instead. *)
Theorem CreateMarker_cached_image (H : Host) (t : MarkerTypeId) (i : IMarkerIconInfo)
    (w : World) (k : string) (mi : IMarkerIconCacheEntry) :
  markerType i = Known t -> id i = Some k -> MarkerCache w !! k = Some mi ->
  required_fields t i = true ->
  world_after (CreateMarker H true i w) = w /\
  (if returns_image t
   then outcome (CreateMarker H true i w) = Return (markerIconString mi)
   else outcome (CreateMarker H true i w) = Return EmptyString /\
        exists cb, callback i = Some cb /\
          invoked (CreateMarker H true i w) =
            [{| inv_callback := cb; inv_image := markerIconString mi;
                inv_info := set_size i (markerSize mi) |}]).
Proof.
  intros Ht Hk Hc Hreq. rewrite (CreateMarker_known H true i w t Ht).
  destruct (cached_generator H t i w mi (cache_hit_id w i k mi Hk Hc) Hreq)
    as (Hw & _ & Hr).
  split; [exact Hw |]. destruct (returns_image t); [apply Hr | exact Hr].
Qed.

Lemma CreateMarker_cached_image_witness :
  (markerType rotated_a = Known RotatedImageMarker /\ id rotated_a = Some "a" /\
   MarkerCache world_a !! "a" = Some entry_a /\
   required_fields RotatedImageMarker rotated_a = true) /\
  world_after (CreateMarker demo_host true rotated_a world_a) = world_a /\
  (outcome (CreateMarker demo_host true rotated_a world_a) = Return EmptyString /\
   exists cb, callback rotated_a = Some cb /\
     invoked (CreateMarker demo_host true rotated_a world_a) =
       [{| inv_callback := cb; inv_image := markerIconString entry_a;
           inv_info := set_size rotated_a (markerSize entry_a) |}]).
Proof.
  split; [repeat split; reflexivity |].
  exact (CreateMarker_cached_image demo_host RotatedImageMarker rotated_a world_a "a"
           entry_a eq_refl eq_refl eq_refl eq_refl).
Defined.

(** C1 counterexample: a rotated image marker whose id is cached returns
    the empty string, not the cached image. *)
Lemma CreateMarker_cached_rotated_returns_empty :
  MarkerCache world_a !! "a" = Some entry_a /\ id rotated_a = Some "a" /\
  outcome (CreateMarker demo_host true rotated_a world_a) <>
    Return (markerIconString entry_a).
Proof. vm_compute. split; [reflexivity | split; [reflexivity | discriminate]]. Qed.

(** A guard that finds a required field null throws, whatever the cache
    holds. *)
Lemma generator_missing_field (H : Host) (t : MarkerTypeId) (i : IMarkerIconInfo)
    (w : World) :
  required_fields t i = false ->
  exists msg, outcome (generator t H true i w) = Throw msg /\
    world_after (generator t H true i w) = w.
Proof.
  intros Hreq.
  destruct t; simpl in Hreq; simpl;
    unfold CreateCanvasMarker, CreateDynmaicCircleMarker, CreateFontBasedMarker,
      CreateRotatedImageMarker, CreateRoundedImageMarker, CreateScaledImageMarker,
      throw_result; simpl;
    destruct (size i), (points i), (fontName i), (fontSize i), (rotation i),
      (url i), (callback i), (scale i); simpl in Hreq; try discriminate;
    eexists; split; reflexivity.
Qed.

(** C2 (corrected): for one marker type, when the document is present, two
    requests whose guards pass and whose id is cached get the cached size
    written into [iconInfo.size], return the same value, deliver the same
    image string to their callbacks and leave the state unchanged,
    whatever their other fields; a request of that type and id with a
    required field missing throws, the id being cached or not. *)
Theorem CreateMarker_cached_keyed_by_id (H : Host) (t : MarkerTypeId)
    (i1 i2 : IMarkerIconInfo) (w : World) (k : string) (mi : IMarkerIconCacheEntry) :
  markerType i1 = Known t -> markerType i2 = Known t ->
  id i1 = Some k -> id i2 = Some k -> MarkerCache w !! k = Some mi ->
  required_fields t i1 = true -> required_fields t i2 = true ->
  size (info_after (CreateMarker H true i1 w)) = Some (markerSize mi) /\
  size (info_after (CreateMarker H true i2 w)) = Some (markerSize mi) /\
  outcome (CreateMarker H true i1 w) = outcome (CreateMarker H true i2 w) /\
  world_after (CreateMarker H true i1 w) = w /\
  world_after (CreateMarker H true i2 w) = w /\
  map inv_image (invoked (CreateMarker H true i1 w)) =
    map inv_image (invoked (CreateMarker H true i2 w)) /\
  (forall i3, markerType i3 = Known t -> id i3 = Some k -> required_fields t i3 = false ->
     exists msg, outcome (CreateMarker H true i3 w) = Throw msg /\
       world_after (CreateMarker H true i3 w) = w).
Proof.
  intros Ht1 Ht2 Hk1 Hk2 Hc Hr1 Hr2.
  split; [| split; [| split; [| split; [| split; [| split]]]]];
    [| | | | | | intros i3 Ht3 _ Hr3;
                 rewrite (CreateMarker_known H true i3 w t Ht3);
                 exact (generator_missing_field H t i3 w Hr3)].
  all: rewrite ?(CreateMarker_known H true i1 w t Ht1), ?(CreateMarker_known H true i2 w t Ht2).
  all: destruct (cached_generator H t i1 w mi (cache_hit_id w i1 k mi Hk1 Hc) Hr1)
         as (Hw1 & Hi1 & Ho1);
       destruct (cached_generator H t i2 w mi (cache_hit_id w i2 k mi Hk2 Hc) Hr2)
         as (Hw2 & Hi2 & Ho2).
  - by rewrite Hi1.
  - by rewrite Hi2.
  - destruct (returns_image t).
    + by rewrite (proj1 Ho1), (proj1 Ho2).
    + by rewrite (proj1 Ho1), (proj1 Ho2).
  - exact Hw1.
  - exact Hw2.
  - destruct (returns_image t).
    + by rewrite (proj2 Ho1), (proj2 Ho2).
    + destruct Ho1 as [_ (cb1 & _ & ->)]. destruct Ho2 as [_ (cb2 & _ & ->)].
      reflexivity.
Qed.

Lemma CreateMarker_cached_keyed_by_id_witness :
  size (info_after (CreateMarker demo_host true (canvas_a (Some MarkerService.default_points)) world_a))
    = Some (markerSize entry_a) /\
  outcome (CreateMarker demo_host true (canvas_a (Some MarkerService.default_points)) world_a) =
    outcome (CreateMarker demo_host true (canvas_a (Some [])) world_a) /\
  world_after (CreateMarker demo_host true (canvas_a (Some [])) world_a) = world_a /\
  (exists msg, outcome (CreateMarker demo_host true (canvas_a None) world_a) = Throw msg).
Proof.
  destruct (CreateMarker_cached_keyed_by_id demo_host CanvasMarker
           (canvas_a (Some MarkerService.default_points)) (canvas_a (Some [])) world_a "a" entry_a
           eq_refl eq_refl eq_refl eq_refl eq_refl eq_refl eq_refl)
    as (Hs1 & _ & Ho & _ & Hw2 & _ & Hmiss).
  split; [exact Hs1 |]. split; [exact Ho |]. split; [exact Hw2 |].
  destruct (Hmiss (canvas_a None) eq_refl eq_refl eq_refl) as [msg [Hm _]].
  exists msg. exact Hm.
Defined.

(** C2 counterexample: with the id cached, the [points] field still decides
    the result of a canvas marker: without it the call throws. *)
Lemma CreateMarker_cached_points_matter :
  outcome (CreateMarker demo_host true (canvas_a (Some MarkerService.default_points)) world_a) <>
  outcome (CreateMarker demo_host true (canvas_a None) world_a).
Proof. vm_compute. discriminate. Qed.

(** The error messages of the six generators start with "Document" or
    "IMarkerIconInfo". *)
Lemma generator_error_head (H : Host) (doc : bool) (t : MarkerTypeId)
    (i : IMarkerIconInfo) (w : World) (m : string) :
  outcome (generator t H doc i w) = Throw m ->
  exists rest, m = String "D"%char rest \/ m = String "I"%char rest.
Proof.
  destruct t; simpl;
    unfold CreateCanvasMarker, CreateDynmaicCircleMarker, CreateFontBasedMarker,
      CreateRotatedImageMarker, CreateRoundedImageMarker, CreateScaledImageMarker,
      image_cache_hit, throw_result;
    split_matches; simpl; intros E; inversion E; subst; eauto.
Qed.

(** C8: [CreateMarker] hands the six [MarkerTypeId] values to their
    generators, which never raise the unsupported-type error; any other
    [markerType] value throws [Error("Unsupported marker type: " + value)]
    and changes nothing. *)
Theorem CreateMarker_dispatch (H : Host) (doc : bool) (i : IMarkerIconInfo) (w : World) :
  match markerType i with
  | Known t =>
      CreateMarker H doc i w = generator t H doc i w /\
      forall v, outcome (CreateMarker H doc i w) <> Throw (unsupported_prefix +:+ v)
  | Other v =>
      outcome (CreateMarker H doc i w) = Throw (unsupported_prefix +:+ v) /\
      world_after (CreateMarker H doc i w) = w
  end.
Proof.
  destruct (markerType i) as [t | v] eqn:Ht.
  - rewrite (CreateMarker_known H doc i w t Ht). split; [reflexivity |].
    intros v Hv. apply generator_error_head in Hv as [rest [Hr | Hr]];
      unfold unsupported_prefix in Hr; simpl in Hr; discriminate.
  - unfold CreateMarker. rewrite Ht. split; reflexivity.
Qed.

(** The effect of a handler run: it removes its load, delivers
    [iconInfo] with [size] set to the canvas size together with the
    rendered canvas, and stores them under [iconInfo.id] when that is
    set, without looking at what the cache holds there. *)
Lemma fire_load_effect (H : Host) (w w' : World) (k : nat) (nw nh : Q)
    (cur : IMarkerIconInfo) (inv : Invocation) :
  fire_load H k nw nh cur w = Some (w', inv) ->
  exists l sz,
    loads w !! k = Some l /\ handler_ready (load_kind l) cur = true /\
    loads w' = delete k (loads w) /\
    Some (inv_callback inv) = callback cur /\
    inv_info inv = set_size cur sz /\
    sz = {| width := canvas_width (onload_drawing H l cur nw nh);
            height := canvas_height (onload_drawing H l cur nw nh) |} /\
    inv_image inv = toDataURL H (onload_drawing H l cur nw nh) /\
    MarkerCache w' = cache_store cur {| markerIconString := inv_image inv;
                                         markerSize := sz |} (MarkerCache w).
Proof.
  unfold fire_load. destruct (loads w !! k) as [l |] eqn:Hl; [| discriminate].
  destruct (handler_ready (load_kind l) cur) eqn:Hr; [| discriminate].
  unfold run_onload. simpl. intros Hf. injection Hf as <- <-.
  eexists l, _. repeat split; try reflexivity; try assumption.
  simpl. unfold handler_ready in Hr.
  destruct (load_kind l), (callback cur); try discriminate; reflexivity.
Qed.

(** Running an [onload] handler while [iconInfo.id] is null leaves the
    cache as it is. *)
Lemma fire_load_no_id (H : Host) (w w' : World) (k : nat) (nw nh : Q)
    (cur : IMarkerIconInfo) (inv : Invocation) :
  id cur = None ->
  fire_load H k nw nh cur w = Some (w', inv) -> MarkerCache w' = MarkerCache w.
Proof.
  intros Hid Hf. apply fire_load_effect in Hf as (l & sz & _ & _ & _ & _ & _ & _ & _ & ->).
  unfold cache_store. by rewrite Hid.
Qed.

(** C7: a request without an id leaves the cache unchanged, its result
    does not depend on what the cache holds (the image is generated
    again), the load it registers (image markers) closes over an
    [iconInfo] with no id, and a handler that runs while [iconInfo.id] is
    still null leaves the cache unchanged too. *)
Theorem CreateMarker_no_id_cache_frame (H : Host) (doc : bool) (i : IMarkerIconInfo)
    (w : World) :
  id i = None ->
  MarkerCache (world_after (CreateMarker H doc i w)) = MarkerCache w /\
  outcome (CreateMarker H doc i w) = outcome (CreateMarker H doc i (set_cache w ∅)) /\
  loads (world_after (CreateMarker H doc i w)) =
    loads (world_after (CreateMarker H doc i (set_cache w ∅))) /\
  (forall l, l ∈ loads (world_after (CreateMarker H doc i w)) -> l ∉ loads w ->
     id (load_info l) = None) /\
  (forall (w1 w1' : World) k nw nh (cur : IMarkerIconInfo) inv,
     id cur = None ->
     fire_load H k nw nh cur w1 = Some (w1', inv) -> MarkerCache w1' = MarkerCache w1).
Proof.
  intros Hid.
  split; [| split; [| split; [| split]]];
    [ | | | | intros; eapply fire_load_no_id; eauto].
  all: unfold CreateMarker; destruct (markerType i) as [[] | v]; simpl;
    unfold CreateCanvasMarker, CreateDynmaicCircleMarker, CreateFontBasedMarker,
      CreateRotatedImageMarker, CreateRoundedImageMarker, CreateScaledImageMarker,
      image_cache_hit, throw_result, add_load, set_cache, cache_store;
    rewrite ?(cache_hit_none _ i Hid); simpl; rewrite ?Hid;
    split_matches; simpl; try reflexivity; try congruence.
  all: intros l Hin Hout; rewrite elem_of_app, list_elem_of_singleton in Hin;
    destruct Hin as [Hin | ->]; [contradiction | exact Hid].
Qed.

Lemma CreateMarker_no_id_cache_frame_witness :
  id font_no_text = None /\
  MarkerCache (world_after (CreateMarker demo_host true font_no_text world_a)) =
    MarkerCache world_a.
Proof.
  split; [reflexivity |].
  exact (proj1 (CreateMarker_no_id_cache_frame demo_host true font_no_text world_a eq_refl)).
Defined.

(** C4 (code_bug): the font generator's guard tests [fontName] and
    [fontSize] only, although its own message lists [text] as required: a
    request without [text] does not throw, and the canvas draws the string
    "undefined". *)
Theorem CreateFontBasedMarker_missing_text_accepted (H : Host) (w : World) :
  text font_no_text = Undefined /\
  outcome (CreateMarker H true font_no_text w) =
    Return (toDataURL H (font_marker_drawing H font_no_text 24 "FontAwesome")) /\
  FillText "undefined" 0 0 ∈ font_marker_drawing H font_no_text 24 "FontAwesome".
Proof.
  split; [reflexivity | split].
  - reflexivity.
  - unfold font_marker_drawing, maybe_rotate. simpl.
    apply list_elem_of_In. simpl. tauto.
Qed.

(** C5 (code_bug): [AddEntity] adds a marker's pushpin to the native layer,
    but [RemoveEntity] tests the misspelt property [NativePRimitive], which
    no entity has, so it never removes anything. *)
Theorem RemoveEntity_never_removes_marker (layer : BingLayerModel.NativeLayer) (p : nat) :
  BingLayerModel.AddEntity layer (BingLayerModel.marker_entity p) =
    BingLayerModel.native_add layer (BingLayerModel.JObj p) /\
  BingLayerModel.RemoveEntity layer (BingLayerModel.marker_entity p) = layer.
Proof. split; reflexivity. Qed.

(** A [CreateMarker] call stores only under an id that was absent, so it
    keeps every entry. *)
Lemma CreateMarker_keeps_entry (H : Host) (doc : bool) (i : IMarkerIconInfo)
    (w : World) (k : string) (e : IMarkerIconCacheEntry) :
  MarkerCache w !! k = Some e ->
  MarkerCache (world_after (CreateMarker H doc i w)) !! k = Some e.
Proof.
  intros Hk.
  unfold CreateMarker; destruct (markerType i) as [[] | v]; simpl;
    unfold CreateCanvasMarker, CreateDynmaicCircleMarker, CreateFontBasedMarker,
      CreateRotatedImageMarker, CreateRoundedImageMarker, CreateScaledImageMarker,
      image_cache_hit, throw_result, add_load, set_cache, cache_store, cache_hit;
    split_matches; simpl; try assumption; try congruence;
    (rewrite lookup_insert_ne by (intros Heq; subst; congruence));
    assumption.
Qed.

(** An [onload] handler may overwrite an entry but removes none. *)
Lemma fire_load_keeps_id (H : Host) (w w' : World) (k : nat) (nw nh : Q)
    (cur : IMarkerIconInfo) (inv : Invocation) (key : string) :
  fire_load H k nw nh cur w = Some (w', inv) ->
  is_Some (MarkerCache w !! key) -> is_Some (MarkerCache w' !! key).
Proof.
  intros Hf Hs. apply fire_load_effect in Hf as (l & sz & _ & _ & _ & _ & _ & _ & _ & ->).
  unfold cache_store.
  destruct (id cur) as [k' |]; [| exact Hs].
  destruct (decide (k' = key)) as [-> | Hne].
  - rewrite lookup_insert_eq. eauto.
  - rewrite lookup_insert_ne; assumption.
Qed.

Lemma marker_step_dom (H : Host) (doc : bool) (w w' : World) :
  marker_step H doc w w' -> dom (MarkerCache w) ⊆ dom (MarkerCache w').
Proof.
  intros Hs key. rewrite !elem_of_dom. destruct Hs as [i w0 | k nw nh cur w0 w1 inv Hf].
  - intros [e He]. eexists. by apply CreateMarker_keeps_entry.
  - by apply (fire_load_keeps_id H w0 w1 k nw nh cur inv key Hf).
Qed.

(** A sequence of [CreateMarker] calls with no image load completing in
    between. *)
Fixpoint run_calls (H : Host) (doc : bool) (is : list IMarkerIconInfo) (w : World)
  : World :=
  match is with
  | [] => w
  | i :: is' => run_calls H doc is' (world_after (CreateMarker H doc i w))
  end.

(** C3 (corrected): over any sequence of calls and image-load completions
    the set of cached ids only grows; calls never change an entry; a call
    of a synchronous generator that stores under a fresh id makes the
    cache one entry larger, with nothing bounding it; and an [onload]
    handler stores its result under [iconInfo.id] without looking at the
    cache, so it replaces whatever entry is there by then. *)
Theorem marker_cache_only_grows (H : Host) (doc : bool) (w w' : World) :
  rtc (marker_step H doc) w w' ->
  dom (MarkerCache w) ⊆ dom (MarkerCache w') /\
  (forall is k e, MarkerCache w !! k = Some e ->
     MarkerCache (run_calls H doc is w) !! k = Some e) /\
  (forall i t k s, markerType i = Known t -> returns_image t = true ->
     id i = Some k -> MarkerCache w !! k = None ->
     outcome (CreateMarker H doc i w) = Return s ->
     stdpp.base.size (MarkerCache (world_after (CreateMarker H doc i w))) =
       S (stdpp.base.size (MarkerCache w))) /\
  (forall w1 w1' n nw nh cur inv k, id cur = Some k ->
     fire_load H n nw nh cur w1 = Some (w1', inv) ->
     exists sz, inv_info inv = set_size cur sz /\
       MarkerCache w1' = <[k := {| markerIconString := inv_image inv;
                                   markerSize := sz |}]> (MarkerCache w1)).
Proof.
  intros Hr. split; [| split; [| split]].
  - induction Hr as [w | w1 w2 w3 Hs _ IH]; [done |].
    etrans; [apply (marker_step_dom H doc _ _ Hs) | exact IH].
  - intros is. clear Hr w'. revert w. induction is as [| i is IH]; intros w k e Hk;
      simpl; [exact Hk |]. apply IH. by apply CreateMarker_keeps_entry.
  - intros i t k s Ht Hret Hk Hnone Hout.
    assert (Hc : cache_hit w i = None) by (unfold cache_hit; rewrite Hk; exact Hnone).
    rewrite (CreateMarker_known H doc i w t Ht) in Hout |- *.
    destruct t; try discriminate; simpl in Hout |- *;
      unfold CreateCanvasMarker, CreateDynmaicCircleMarker, CreateFontBasedMarker,
        throw_result in Hout |- *; rewrite ?Hc in Hout |- *;
      destruct doc; simpl in Hout |- *; try discriminate;
      split_matches; simpl in Hout |- *; try discriminate;
      unfold cache_store; rewrite ?id_set_size, Hk;
      apply map_size_insert_None; exact Hnone.
  - intros w1 w1' n nw nh cur inv k Hk Hf.
    apply fire_load_effect in Hf as (l & sz & _ & _ & _ & _ & Hi & _ & _ & Hc).
    exists sz. split; [exact Hi |]. rewrite Hc. unfold cache_store. by rewrite Hk.
Qed.

(** C3 counterexample: a rotated image request for id "a" misses the
    cache and registers its load; a canvas request for "a" then caches its
    image; when the image loads, the handler stores under "a" again and
    replaces that entry. *)
Definition race_w1 : World :=
  world_after (CreateMarker demo_host true rotated_a empty_world).

Definition race_w2 : World :=
  world_after (CreateMarker demo_host true (canvas_a (Some MarkerService.default_points)) race_w1).

Lemma onload_replaces_cached_entry :
  marker_step demo_host true empty_world race_w1 /\
  marker_step demo_host true race_w1 race_w2 /\
  is_Some (MarkerCache race_w2 !! "a") /\
  match fire_load demo_host 0 20 10 rotated_a race_w2 with
  | Some (w3, _) =>
      marker_step demo_host true race_w2 w3 /\
      MarkerCache w3 !! "a" <> MarkerCache race_w2 !! "a"
  | None => False
  end.
Proof.
  split; [apply ms_call |]. split; [apply ms_call |]. split.
  - vm_compute. eexists. reflexivity.
  - destruct (fire_load demo_host 0 20 10 rotated_a race_w2) as [[w3 inv] |] eqn:Hf.
    + split; [eapply ms_load; exact Hf |].
      revert Hf. vm_compute. intros Hf. inversion Hf. subst. vm_compute. discriminate.
    + vm_compute in Hf. discriminate.
Qed.

Lemma marker_cache_only_grows_witness :
  rtc (marker_step demo_host true) empty_world race_w2 /\
  dom (MarkerCache empty_world) ⊆ dom (MarkerCache race_w2).
Proof.
  assert (Hr : rtc (marker_step demo_host true) empty_world race_w2).
  { apply (rtc_l _ _ race_w1); [exact (ms_call demo_host true rotated_a empty_world) |].
    apply (rtc_l _ _ race_w2);
      [exact (ms_call demo_host true (canvas_a (Some MarkerService.default_points)) race_w1) |].
    apply rtc_refl. }
  split; [exact Hr |].
  exact (proj1 (marker_cache_only_grows demo_host true empty_world race_w2 Hr)).
Defined.

(** ** The map lifecycle of BingMapService *)

Module MapLifecycleProofs.
Local Open Scope nat_scope.
Import MapLifecycle.

(** What holds in every reachable state: [_map] is the promise the
    resolver settles; numbers below [fresh] are used; with no instance
    the map promise is pending; the instance is live and is the only
    live map. *)
Definition svc_inv (st : SvcState) : Prop :=
  _map st = Some (_mapResolver st) /\
  (forall p, is_Some (promises st !! p) -> p < fresh st) /\
  (forall m, is_Some (maps st !! m) -> m < fresh st) /\
  (_mapInstance st = None -> promises st !! _mapResolver st = Some None) /\
  (forall m, _mapInstance st = Some m -> maps st !! m = Some Live) /\
  one_live st.

Lemma resolve_dom (p m q : nat) (ps : gmap nat (option nat)) :
  is_Some (resolve p m ps !! q) <-> is_Some (ps !! q).
Proof.
  unfold resolve. destruct (ps !! p) as [[v |] |] eqn:Hp; try done.
  destruct (decide (p = q)) as [-> | Hne].
  - rewrite lookup_insert_eq, Hp. split; eauto.
  - by rewrite lookup_insert_ne.
Qed.

Lemma init_inv : svc_inv init_state.
Proof.
  unfold svc_inv, init_state, new_map_promise, one_live; simpl.
  split; [done |]. split; [| split; [| split; [| split]]].
  - intros p [v Hv]. destruct (decide (p = 0)) as [-> | Hne]; [lia |].
    rewrite lookup_insert_ne in Hv by congruence. done.
  - intros m [v Hv]. done.
  - intros _. by rewrite lookup_insert_eq.
  - done.
  - intros m Hm. done.
Qed.

Lemma DisposeMap_no_instance (st : SvcState) :
  _mapInstance st = None -> DisposeMap st = st.
Proof. intros H. unfold DisposeMap. rewrite H. by destruct (_map st). Qed.

Lemma DisposeMap_inv (st : SvcState) : svc_inv st -> svc_inv (DisposeMap st).
Proof.
  intros Hinv.
  destruct (_mapInstance st) as [m |] eqn:Hi; [| by rewrite DisposeMap_no_instance].
  destruct Hinv as (Hmap & Hp & Hm & Hnone & Hlive & Hone).
  assert (Hml : maps st !! m = Some Live) by auto.
  unfold DisposeMap. rewrite Hi. destruct (_map st); unfold svc_inv, new_map_promise, one_live; simpl;
    (split; [done |]; split; [| split; [| split; [| split]]]).
  all: try (intros _; by rewrite lookup_insert_eq).
  all: try (intros ? ?; discriminate).
  all: try (intros p [v Hv]; destruct (decide (p = fresh st)) as [-> | Hne]; [lia |];
            rewrite lookup_insert_ne in Hv by congruence; assert (p < fresh st) by eauto; lia).
  all: try (intros m' [v Hv]; destruct (decide (m' = m)) as [-> | Hne];
            [assert (m < fresh st) by (apply Hm; rewrite Hml; eauto); lia |];
            rewrite lookup_insert_ne in Hv by congruence; assert (m' < fresh st) by eauto; lia).
  all: intros m' Hv; destruct (decide (m' = m)) as [-> | Hne];
    [rewrite lookup_insert_eq in Hv; discriminate |];
    rewrite lookup_insert_ne in Hv by congruence;
    apply Hone in Hv; congruence.
Qed.

Lemma DisposeMap_clears (st : SvcState) : _mapInstance (DisposeMap st) = None.
Proof.
  unfold DisposeMap. destruct (_map st), (_mapInstance st) eqn:Hi; simpl; congruence.
Qed.

(** [CreateMap_then] in two steps: dispose any instance, then install a
    new map. *)
Definition install_map (st1 : SvcState) : SvcState :=
  let m := fresh st1 in
  {| _map := _map st1; _mapInstance := Some m; _mapResolver := _mapResolver st1;
     promises := resolve (_mapResolver st1) m (promises st1);
     maps := <[m := Live]> (maps st1); fresh := S m |}.

Definition dispose_first (st : SvcState) : SvcState :=
  match _mapInstance st with Some _ => DisposeMap st | None => st end.

Lemma CreateMap_then_split (st : SvcState) :
  CreateMap_then st = install_map (dispose_first st).
Proof. reflexivity. Qed.

Lemma dispose_first_inv (st : SvcState) :
  svc_inv st -> svc_inv (dispose_first st) /\ _mapInstance (dispose_first st) = None.
Proof.
  intros Hinv. unfold dispose_first. destruct (_mapInstance st) eqn:Hi.
  - split; [by apply DisposeMap_inv | apply DisposeMap_clears].
  - by split.
Qed.

Lemma install_map_inv (st1 : SvcState) :
  svc_inv st1 -> _mapInstance st1 = None -> svc_inv (install_map st1).
Proof.
  intros (Hmap & Hp & Hm & Hnone & Hlive & Hone) Hi.
  unfold svc_inv, install_map, one_live; simpl.
  split; [done |]. split; [| split; [| split; [| split]]].
  - intros p Hs. apply resolve_dom in Hs. apply Hp in Hs. lia.
  - intros m [v Hv]. destruct (decide (m = fresh st1)) as [-> | Hne]; [lia |].
    rewrite lookup_insert_ne in Hv by congruence.
    assert (m < fresh st1) by eauto. lia.
  - discriminate.
  - intros m Hm'. inversion Hm'. apply lookup_insert_eq.
  - intros m Hv. destruct (decide (m = fresh st1)) as [-> | Hne]; [done |].
    rewrite lookup_insert_ne in Hv by congruence. apply Hone in Hv. congruence.
Qed.

Lemma CreateMap_then_inv (st : SvcState) : svc_inv st -> svc_inv (CreateMap_then st).
Proof.
  intros Hinv. rewrite CreateMap_then_split.
  destruct (dispose_first_inv st Hinv) as [H1 H2]. by apply install_map_inv.
Qed.

Lemma reachable_inv (st : SvcState) : reachable st -> svc_inv st.
Proof.
  induction 1; [apply init_inv | by apply CreateMap_then_inv | by apply DisposeMap_inv].
Qed.

Lemma fresh_unused (st : SvcState) : svc_inv st ->
  promises st !! fresh st = None /\ maps st !! fresh st = None.
Proof.
  intros (_ & Hp & Hm & _).
  split; [destruct (promises st !! fresh st) eqn:E | destruct (maps st !! fresh st) eqn:E];
    try reflexivity.
  - assert (fresh st < fresh st) by (apply Hp; rewrite E; eauto). lia.
  - assert (fresh st < fresh st) by (apply Hm; rewrite E; eauto). lia.
Qed.

Lemma dispose_first_fresh (st : SvcState) : fresh st <= fresh (dispose_first st).
Proof.
  unfold dispose_first, DisposeMap.
  destruct (_mapInstance st), (_map st); simpl; lia.
Qed.

(** C9: a reachable service has at most one live map. [DisposeMap] with an
    instance disposes it, clears [_mapInstance] and installs a fresh
    pending map promise; without an instance it changes nothing, so it is
    idempotent. [CreateMap] disposes the live instance first, then stores a
    new live map and resolves the map promise with it. *)
Theorem BingMapService_single_instance (st : SvcState) :
  reachable st ->
  one_live st /\
  (_mapInstance st = None -> DisposeMap st = st) /\
  DisposeMap (DisposeMap st) = DisposeMap st /\
  (forall m, _mapInstance st = Some m ->
     maps (DisposeMap st) !! m = Some Disposed /\
     _mapInstance (DisposeMap st) = None /\
     (exists p, _map (DisposeMap st) = Some p /\ promises st !! p = None /\
        promises (DisposeMap st) !! p = Some None) /\
     one_live (DisposeMap st)) /\
  (forall m, _mapInstance st = Some m -> maps (CreateMap_then st) !! m = Some Disposed) /\
  (exists m', _mapInstance (CreateMap_then st) = Some m' /\ maps st !! m' = None /\
     maps (CreateMap_then st) !! m' = Some Live /\
     (exists p, _map (CreateMap_then st) = Some p /\
        promises (CreateMap_then st) !! p = Some (Some m')) /\
     one_live (CreateMap_then st)).
Proof.
  intros Hr. pose proof (reachable_inv st Hr) as Hinv.
  destruct (fresh_unused st Hinv) as [Hfp Hfm].
  assert (Hdisp : forall m, _mapInstance st = Some m ->
     maps (DisposeMap st) !! m = Some Disposed /\
     _mapInstance (DisposeMap st) = None /\
     (exists p, _map (DisposeMap st) = Some p /\ promises st !! p = None /\
        promises (DisposeMap st) !! p = Some None) /\
     one_live (DisposeMap st)).
  { intros m Hi. split; [| split; [| split]].
    - unfold DisposeMap. rewrite Hi. destruct (_map st); apply lookup_insert_eq.
    - apply DisposeMap_clears.
    - exists (fresh st). unfold DisposeMap. rewrite Hi.
      destruct (_map st); simpl; (split; [done | split; [done | apply lookup_insert_eq]]).
    - apply (DisposeMap_inv st Hinv). }
  split; [apply Hinv |]. split; [apply DisposeMap_no_instance |].
  split; [apply DisposeMap_no_instance, DisposeMap_clears |].
  split; [exact Hdisp |]. split.
  - intros m Hi. rewrite CreateMap_then_split. unfold install_map. simpl.
    assert (Hlt : m < fresh st).
    { destruct Hinv as (_ & _ & Hm & _ & Hlive & _). apply Hm. rewrite (Hlive m Hi). eauto. }
    pose proof (dispose_first_fresh st).
    rewrite lookup_insert_ne by lia.
    unfold dispose_first. rewrite Hi. apply (Hdisp m Hi).
  - destruct (dispose_first_inv st Hinv) as [Hinv1 Hi1].
    pose proof (install_map_inv _ Hinv1 Hi1) as Hinv2.
    exists (fresh (dispose_first st)). rewrite CreateMap_then_split.
    split; [reflexivity |]. split; [| split; [| split]].
    + pose proof (dispose_first_fresh st) as Hle.
      destruct (maps st !! fresh (dispose_first st)) eqn:E; [| reflexivity].
      destruct Hinv as (_ & _ & Hm & _).
      assert (fresh (dispose_first st) < fresh st) by (apply Hm; rewrite E; eauto). lia.
    + apply lookup_insert_eq.
    + destruct Hinv1 as (Hmap1 & _ & _ & Hnone1 & _).
      exists (_mapResolver (dispose_first st)). unfold install_map. simpl.
      split; [exact Hmap1 |]. unfold resolve. rewrite (Hnone1 Hi1). apply lookup_insert_eq.
    + apply Hinv2.
Qed.

Lemma BingMapService_single_instance_witness :
  reachable (CreateMap_then init_state) /\
  one_live (CreateMap_then init_state).
Proof.
  split; [apply reach_create, reach_init |].
  exact (proj1 (BingMapService_single_instance (CreateMap_then init_state)
                  (reach_create _ reach_init))).
Defined.
End MapLifecycleProofs.

Module MarkerServiceProofs.
Import MarkerService.

(** C10: when the translated pushpin options carry no icon, the default
    48 x 48 red ("#f00") canvas arrow, rotated by 45 degrees and with no
    id, is drawn by [Marker.CreateMarker]; the anchor is
    (width * 0.75, height * 0.25) and the text offset (0, height * 0.66) of
    its 48 x 48 size; the icon cache (and the whole marker state) is left
    as it was, so the icon is drawn again for every such marker. *)
Theorem CreateMarker_then_default_icon (H : Host) (o : IPushpinOptions) (w : World) :
  icon o = None ->
  markerType default_icon_info = Known CanvasMarker /\
  id default_icon_info = None /\
  rotation default_icon_info = Some 45 /\
  color default_icon_info = Some "#f00" /\
  size default_icon_info = Some {| width := s48; height := s48 |} /\
  CreateMarker_then H o w =
    inr ({| icon := Some (toDataURL H (canvas_marker_drawing H default_icon_info
                              {| width := s48; height := s48 |} default_points));
            anchor := Some {| x := s48 * 0.75; y := s48 * 0.25 |};
            textOffset := Some {| x := 0; y := s48 * 0.66 |};
            pp_other := pp_other o |}, w).
Proof.
  intros Hi. split; [reflexivity |]. split; [reflexivity |].
  split; [reflexivity |]. split; [reflexivity |]. split; [reflexivity |].
  unfold CreateMarker_then. rewrite Hi. destruct w. reflexivity.
Qed.

Definition no_icon_options : IPushpinOptions :=
  {| icon := None; anchor := None; textOffset := None; pp_other := [] |}.

Lemma CreateMarker_then_default_icon_witness :
  icon no_icon_options = None /\
  CreateMarker_then demo_host no_icon_options empty_world =
    inr ({| icon := Some (toDataURL demo_host (canvas_marker_drawing demo_host
                              default_icon_info {| width := s48; height := s48 |}
                              default_points));
            anchor := Some {| x := s48 * 0.75; y := s48 * 0.25 |};
            textOffset := Some {| x := 0; y := s48 * 0.66 |};
            pp_other := [] |}, empty_world).
Proof.
  split; [reflexivity |].
  exact (proj2 (proj2 (proj2 (proj2 (proj2
    (CreateMarker_then_default_icon demo_host no_icon_options empty_world eq_refl)))))).
Defined.

(** The default icon's anchor is (36, 12) and its text offset (0, 31.68). *)
Example default_anchor_values :
  s48 * 0.75 == 36 /\ s48 * 0.25 == 12 /\ s48 * 0.66 == 31.68.
Proof. vm_compute. repeat split; reflexivity. Qed.

End MarkerServiceProofs.


(* ------------------------------------------------------------------ *)
(** ** Further properties of the icon generators *)

Module GeneratorFacts.

Ltac unfold_generators :=
  unfold CreateCanvasMarker, CreateDynmaicCircleMarker, CreateFontBasedMarker,
    CreateRotatedImageMarker, CreateRoundedImageMarker, CreateScaledImageMarker,
    image_cache_hit, throw_result, add_load, set_cache.


(** A call touches the cache only under its own id, and an [onload]
    handler only under the id [iconInfo] has when it runs. *)
Theorem cache_changes_only_own_id (H : Host) (doc : bool) (i : IMarkerIconInfo)
    (w : World) (k' : string) :
  id i <> Some k' ->
  MarkerCache (world_after (CreateMarker H doc i w)) !! k' = MarkerCache w !! k' /\
  (forall n nw nh cur w2 inv, id cur <> Some k' ->
     fire_load H n nw nh cur w = Some (w2, inv) -> MarkerCache w2 !! k' = MarkerCache w !! k').
Proof.
  intros Hne. split.
  - unfold CreateMarker. destruct (markerType i) as [[] | v]; simpl;
      unfold_generators; unfold cache_store; split_matches; simpl; try reflexivity;
      (rewrite lookup_insert_ne by congruence); reflexivity.
  - intros n nw nh cur w2 inv Hid Hf.
    apply fire_load_effect in Hf as (l & sz & _ & _ & _ & _ & _ & _ & _ & ->).
    unfold cache_store. destruct (id cur) as [k |] eqn:E; [| reflexivity].
    rewrite lookup_insert_ne by congruence. reflexivity.
Qed.

Lemma cache_changes_only_own_id_witness :
  MarkerCache (world_after (CreateMarker demo_host true rotated_a world_a)) !! "b" =
    MarkerCache world_a !! "b".
Proof.
  exact (proj1 (cache_changes_only_own_id demo_host true rotated_a world_a "b"
                  ltac:(simpl; congruence))).
Defined.


Lemma set_size_same (i : IMarkerIconInfo) (sz : ISize) :
  size i = Some sz -> set_size i sz = i.
Proof. destruct i; simpl; intros ->; reflexivity. Qed.

Lemma set_size_twice (i : IMarkerIconInfo) (sz sz' : ISize) :
  set_size (set_size i sz) sz' = set_size i sz'.
Proof. reflexivity. Qed.

(** A canvas, circle or font marker that has an id, asked for a second
    time with the [iconInfo] object the first call left behind, gets the
    same image string back; the second call changes neither the state nor
    [iconInfo]. *)
Theorem CreateMarker_repeat_same_image (H : Host) (doc : bool) (t : MarkerTypeId)
    (i : IMarkerIconInfo) (w : World) (k s : string) :
  markerType i = Known t -> returns_image t = true -> id i = Some k ->
  outcome (CreateMarker H doc i w) = Return s ->
  let r1 := CreateMarker H doc i w in
  let r2 := CreateMarker H doc (info_after r1) (world_after r1) in
  outcome r2 = Return s /\ world_after r2 = world_after r1 /\
  info_after r2 = info_after r1 /\ invoked r2 = [].
Proof.
  intros Ht Hr Hk Hs. cbv zeta.
  rewrite (CreateMarker_known H doc i w t Ht) in *.
  destruct t; try discriminate; simpl in *;
    unfold CreateCanvasMarker, CreateDynmaicCircleMarker, CreateFontBasedMarker,
      throw_result, set_cache, cache_store in *;
    destruct doc; simpl in *; try discriminate;
    unfold cache_hit in *; rewrite Hk in *;
    destruct (MarkerCache w !! k) as [mi |] eqn:Hc.
  all: repeat match goal with
       | Hs : outcome (match ?e with _ => _ end) = _ |- _ => destruct e eqn:?
       end; simpl in *; try discriminate.
  all: unfold CreateMarker; simpl; rewrite ?Ht; simpl;
       unfold CreateCanvasMarker, CreateDynmaicCircleMarker, CreateFontBasedMarker;
       simpl; unfold cache_hit; simpl; rewrite ?Hk, ?Hc, ?lookup_insert_eq;
       simpl; repeat match goal with
       | E : ?e = Some _ |- context [?e] => rewrite E
       end; simpl.
  all: injection Hs as <-; rewrite ?set_size_twice, ?set_size_same by assumption;
       repeat split; reflexivity.
Qed.


Lemma CreateMarker_repeat_same_image_witness :
  let r1 := CreateMarker demo_host true (canvas_a (Some [])) empty_world in
  let r2 := CreateMarker demo_host true (info_after r1) (world_after r1) in
  outcome r2 = Return "data:image/png;base64,PATH" /\ world_after r2 = world_after r1 /\
  info_after r2 = info_after r1 /\ invoked r2 = [].
Proof.
  exact (CreateMarker_repeat_same_image demo_host true CanvasMarker (canvas_a (Some []))
           empty_world "a" "data:image/png;base64,PATH" eq_refl eq_refl eq_refl eq_refl).
Defined.


(** When an [onload] handler runs for an [iconInfo] whose id is [k], in
    any state and for any pending load, it removes that load, passes the
    callback [iconInfo] with its size set to the canvas size, and caches
    the image with that size. Any later image-marker request with id [k]
    whose guards pass is then answered at once: its callback receives the
    same image string, its [iconInfo.size] becomes that canvas size, it
    returns the empty string and the state stays as it is. *)
Theorem image_load_then_cached (H : Host) (w w' : World) (n : nat) (nw nh : Q)
    (cur : IMarkerIconInfo) (inv : Invocation) (k : string) (t : MarkerTypeId)
    (i : IMarkerIconInfo) (cb : nat) :
  id cur = Some k -> fire_load H n nw nh cur w = Some (w', inv) ->
  markerType i = Known t -> returns_image t = false -> required_fields t i = true ->
  id i = Some k -> callback i = Some cb ->
  exists l, loads w !! n = Some l /\ loads w' = delete n (loads w) /\
    let sz := {| width := canvas_width (onload_drawing H l cur nw nh);
                 height := canvas_height (onload_drawing H l cur nw nh) |} in
    inv_info inv = set_size cur sz /\
    Some (inv_callback inv) = callback cur /\
    inv_image inv = toDataURL H (onload_drawing H l cur nw nh) /\
    outcome (CreateMarker H true i w') = Return EmptyString /\
    info_after (CreateMarker H true i w') = set_size i sz /\
    world_after (CreateMarker H true i w') = w' /\
    invoked (CreateMarker H true i w') =
      [{| inv_callback := cb; inv_image := inv_image inv; inv_info := set_size i sz |}].
Proof.
  intros Hk Hf Ht Hr Hreq Hki Hcb.
  apply fire_load_effect in Hf as (l & sz & Hl & _ & Hdel & Hcbc & Hinfo & Hsz & Himg & Hc).
  exists l. split; [exact Hl |]. split; [exact Hdel |]. cbv zeta. rewrite <- Hsz.
  split; [exact Hinfo |]. split; [exact Hcbc |]. split; [exact Himg |].
  assert (Hhit : cache_hit w' i =
                   Some {| markerIconString := inv_image inv; markerSize := sz |}).
  { unfold cache_hit. rewrite Hki, Hc. unfold cache_store. rewrite Hk.
    apply lookup_insert_eq. }
  rewrite (CreateMarker_known H true i w' t Ht).
  destruct (cached_generator H t i w' _ Hhit Hreq) as (Hw & Hi & Ho).
  rewrite Hr in Ho. destruct Ho as [Ho (cb' & Hcb' & Hinv)].
  rewrite Hcb in Hcb'. injection Hcb' as <-.
  split; [exact Ho |]. split; [exact Hi |]. split; [exact Hw | exact Hinv].
Qed.

Definition race_load : option (World * Invocation) :=
  fire_load demo_host 0 40 20 rotated_a race_w1.

Lemma image_load_then_cached_witness :
  match race_load with
  | Some (w', inv) =>
      outcome (CreateMarker demo_host true rotated_a w') = Return EmptyString /\
      invoked (CreateMarker demo_host true rotated_a w') =
        [{| inv_callback := 1%nat; inv_image := inv_image inv;
            inv_info := info_after (CreateMarker demo_host true rotated_a w') |}]
  | None => False
  end.
Proof.
  unfold race_load.
  destruct (fire_load demo_host 0 40 20 rotated_a race_w1) as [[w' inv] |] eqn:Hf;
    [| vm_compute in Hf; discriminate].
  destruct (image_load_then_cached demo_host race_w1 w' 0 40 20 rotated_a inv "a"
              RotatedImageMarker rotated_a 1 eq_refl Hf eq_refl eq_refl eq_refl eq_refl eq_refl)
    as (l & _ & _ & _ & _ & _ & Ho & Hi & _ & Hinv).
  split; [exact Ho |]. rewrite Hi. exact Hinv.
Defined.

End GeneratorFacts.

(* ------------------------------------------------------------------ *)
(** ** [BingLayer.SetEntities] (src/models/binglayer.ts) *)

Module BingLayerEntities.
Import BingLayerModel.

(** [this._layer.setPrimitives(p)]: the layer's primitives become [p]. *)
Definition native_setPrimitives (l : NativeLayer) (p : list JSValue) : NativeLayer :=
  {| primitives := p; layer_id := layer_id l |}.

(** [BingLayer.SetEntities]:
    [let p = new Array();
     entities.forEach(e => { if(e.NativePrimitve) p.push(e.NativePrimitve); });
     this._layer.setPrimitives(p);] *)
Definition SetEntities (layer : NativeLayer) (entities : list JSObject) : NativeLayer :=
  let p := fold_left (fun p e =>
             if truthy (get_prop e "NativePrimitve")
             then p ++ [get_prop e "NativePrimitve"] else p) entities [] in
  native_setPrimitives layer p.

Lemma SetEntities_fold (es : list JSObject) (acc : list JSValue) :
  fold_left (fun p e =>
     if truthy (get_prop e "NativePrimitve")
     then p ++ [get_prop e "NativePrimitve"] else p) es acc =
  acc ++ map (fun e => get_prop e "NativePrimitve")
             (List.filter (fun e => truthy (get_prop e "NativePrimitve")) es).
Proof.
  revert acc. induction es as [| e es IH]; intros acc; simpl.
  - by rewrite app_nil_r.
  - destruct (truthy (get_prop e "NativePrimitve")); rewrite IH; simpl;
      [by rewrite <- app_assoc | reflexivity].
Qed.

Lemma AddEntity_fold (es : list JSObject) (l : NativeLayer) :
  fold_left AddEntity es l =
  {| primitives := primitives l ++ map (fun e => get_prop e "NativePrimitve")
                     (List.filter (fun e => truthy (get_prop e "NativePrimitve")) es);
     layer_id := layer_id l |}.
Proof.
  revert l. induction es as [| e es IH]; intros l; simpl.
  - destruct l; simpl. by rewrite app_nil_r.
  - rewrite IH. unfold AddEntity, native_add.
    destruct (truthy (get_prop e "NativePrimitve")); simpl;
      [by rewrite <- app_assoc | reflexivity].
Qed.

End BingLayerEntities.

Module BingLayerEntitiesProofs.
Import BingLayerModel BingLayerEntities.

(** [SetEntities] replaces the layer's primitives by the [NativePrimitve]
    of each entity that has a truthy one, in the order of the entities;
    entities without one are skipped and the layer id is kept. The result
    is what clearing the layer and calling [AddEntity] on each entity in
    turn gives. *)
Theorem SetEntities_keeps_native_primitives (layer : NativeLayer) (es : list JSObject) :
  primitives (SetEntities layer es) =
    map (fun e => get_prop e "NativePrimitve")
        (List.filter (fun e => truthy (get_prop e "NativePrimitve")) es) /\
  layer_id (SetEntities layer es) = layer_id layer /\
  SetEntities layer es = fold_left AddEntity es (native_setPrimitives layer []).
Proof.
  unfold SetEntities. rewrite SetEntities_fold, AddEntity_fold. simpl.
  split; [reflexivity |]. split; reflexivity.
Qed.

End BingLayerEntitiesProofs.

(* ------------------------------------------------------------------ *)
(** ** The map promise of BingMapService *)

Module MapPromiseProofs.
Local Open Scope nat_scope.
Import MapLifecycle MapLifecycleProofs.

Lemma map_promise_inv (st : SvcState) :
  reachable st ->
  forall m, _mapInstance st = Some m -> promises st !! _mapResolver st = Some (Some m).
Proof.
  induction 1 as [| st Hr IH | st Hr IH].
  - discriminate.
  - intros m. rewrite CreateMap_then_split. unfold install_map. simpl.
    intros [= <-].
    destruct (dispose_first_inv st (reachable_inv st Hr)) as [Hinv1 Hi1].
    destruct Hinv1 as (_ & _ & _ & Hnone1 & _).
    unfold resolve. rewrite (Hnone1 Hi1). apply lookup_insert_eq.
  - intros m Hm. destruct (_mapInstance st) eqn:Hi.
    + rewrite DisposeMap_clears in Hm. discriminate.
    + rewrite DisposeMap_no_instance in Hm by exact Hi. congruence.
Qed.

(** In every state the service reaches from its constructor through
    [CreateMap] and [DisposeMap], [this._map] is the promise of the
    current [_mapResolver]; that promise is resolved with the current map
    instance when there is one, and pending when there is none. *)
Theorem map_promise_tracks_instance (st : SvcState) :
  reachable st ->
  _map st = Some (_mapResolver st) /\
  promises st !! _mapResolver st = match _mapInstance st with
                                   | Some m => Some (Some m)
                                   | None => Some None
                                   end.
Proof.
  intros Hr. destruct (reachable_inv st Hr) as (Hmap & _ & _ & Hnone & _).
  split; [exact Hmap |].
  destruct (_mapInstance st) as [m |] eqn:Hi.
  - exact (map_promise_inv st Hr m Hi).
  - exact (Hnone eq_refl).
Qed.

Lemma map_promise_tracks_instance_witness :
  _map (DisposeMap (CreateMap_then init_state)) =
    Some (_mapResolver (DisposeMap (CreateMap_then init_state))) /\
  promises (DisposeMap (CreateMap_then init_state)) !!
    _mapResolver (DisposeMap (CreateMap_then init_state)) = Some None.
Proof.
  exact (map_promise_tracks_instance _ (reach_dispose _ (reach_create _ reach_init))).
Defined.

End MapPromiseProofs.
